(** * The KIC ledger of the UAE Innovate Hub dashboard (main.py)

    A shallow embedding of the part of [main.py] that stores and moves the
    internal currency: the [users] and [kic_transactions] tables created by
    [Database.create_tables], their seeding in [Database.seed_enhanced_data],
    [EnhancedAuthManager.register], and the three static methods of
    [KICManager].

    The SQLite connection is the state.  A table with an INTEGER PRIMARY KEY
    is a finite map from the key to the row ([users]), a table that is only
    appended to and summed is the list of its rows in insertion order
    ([kic_transactions]).  Python functions are computations in a small
    state-and-exception monad over that state.

    Integers are unbounded ([Z]): the amounts and balances the program
    handles are far inside SQLite's 64-bit range, where its integer
    arithmetic is exact.  The columns that no ledger statement reads or
    writes (password hash, biography, timestamps, ...) and the tables of the
    catalogue are left out. *)

From stdpp Require Import gmap strings list fin_maps.
From Stdlib Require Import ZArith Lia.

Open Scope string_scope.
Open Scope list_scope.
Open Scope Z_scope.

(** ** Rows and tables *)

(** A row of [users], without its key (lines 36-54). *)
Record user_row := UserRow {
  email : string;
  name : string;
  user_type : string;
  organization : option string;
  location : option string;
  kic_balance : Z
}.

(** A row of [companies] (lines 57-73): a name and a balance of its own,
    which no statement of the program ever updates. *)
Record company_row := CompanyRow {
  company_name : string;
  company_kic_balance : Z
}.

(** A row of [kic_transactions] (lines 199-210). *)
Record txn_row := TxnRow {
  txn_id : Z;
  txn_user_id : Z;
  transaction_type : string;
  txn_amount : Z;
  txn_description : string;
  related_id : option Z
}.

(** The connection.  [users_seq] and [kic_transactions_seq] are the rows of
    [sqlite_sequence] that AUTOINCREMENT keeps for the two tables. *)
Record Database := Db {
  users : gmap Z user_row;
  users_seq : Z;
  companies : list company_row;
  kic_transactions : list txn_row;
  kic_transactions_seq : Z
}.

(** [Database.__init__] on a new file: [create_tables] leaves every table
    empty. *)
Definition create_tables : Database :=
  {| users := ∅; users_seq := 0; companies := [];
     kic_transactions := []; kic_transactions_seq := 0 |}.

(** ** Python outcomes *)

(** The two exception classes the modelled code can meet: [TypeError] from
    subscripting [None], [sqlite3.IntegrityError] from a UNIQUE column. *)
Inductive exception := TypeError | IntegrityError.

Inductive outcome (A : Type) :=
  | Returned (a : A)
  | Raised (e : exception).
Arguments Returned {A} a.
Arguments Raised {A} e.

#[global] Instance exception_eq_dec : EqDecision exception.
Proof. solve_decision. Defined.

#[global] Instance outcome_eq_dec `{EqDecision A} : EqDecision (outcome A).
Proof. solve_decision. Defined.

(** A computation on the connection.  A raised exception leaves the state
    as it was when it was raised: the program never rolls back. *)
Definition Sql (A : Type) : Type := Database → outcome A * Database.

#[global] Instance Sql_ret : MRet Sql := λ A a db, (Returned a, db).

#[global] Instance Sql_bind : MBind Sql := λ A B k m db,
  match m db with
  | (Returned a, db') => k a db'
  | (Raised e, db') => (Raised e, db')
  end.

Definition raise {A} (e : exception) : Sql A := λ db, (Raised e, db).

(** [try: body except e: handler] *)
Definition try_except {A} (body : Sql A) (e : exception) (handler : Sql A) : Sql A :=
  λ db,
    match body db with
    | (Raised e', db') => if decide (e' = e) then handler db' else (Raised e', db')
    | r => r
    end.

(** ** SQL statements *)

(** The AUTOINCREMENT key of a new row: one more than the largest key the
    table has ever held. *)
Definition max_key {A} (m : gmap Z A) : Z :=
  map_fold (λ k _ acc, Z.max k acc) 0 m.

Definition max_txn_id (l : list txn_row) : Z :=
  foldr (λ t acc, Z.max (txn_id t) acc) 0 l.

Definition next_user_id (db : Database) : Z :=
  Z.max (users_seq db) (max_key (users db)) + 1.

Definition next_txn_id (db : Database) : Z :=
  Z.max (kic_transactions_seq db) (max_txn_id (kic_transactions db)) + 1.

(** [cursor.execute("SELECT kic_balance FROM users WHERE id = ?", (uid,))]
    followed by [cursor.fetchone()]: the row as a 1-tuple, or [None]. *)
Definition select_kic_balance (uid : Z) : Sql (option Z) :=
  λ db, (Returned (kic_balance <$> users db !! uid), db).

(** [row[0]]: subscripting [None] raises [TypeError]. *)
Definition subscript0 {A} (row : option A) : Sql A :=
  match row with
  | Some v => mret v
  | None => raise TypeError
  end.

Definition set_kic_balance (f : Z → Z) (r : user_row) : user_row :=
  {| email := email r; name := name r; user_type := user_type r;
     organization := organization r; location := location r;
     kic_balance := f (kic_balance r) |}.

(** [UPDATE users SET kic_balance = <f kic_balance> WHERE id = ?]: changes
    the row with that key, and nothing when there is none. *)
Definition update_kic_balance (f : Z → Z) (uid : Z) : Sql unit :=
  λ db, (Returned (),
         {| users := alter (set_kic_balance f) uid (users db);
            users_seq := users_seq db;
            companies := companies db;
            kic_transactions := kic_transactions db;
            kic_transactions_seq := kic_transactions_seq db |}).

(** [INSERT INTO kic_transactions (user_id, transaction_type, amount,
    description, related_id) VALUES (?, ?, ?, ?, ?)].  The table declares a
    foreign key on [user_id], but the program never turns enforcement on
    (no [PRAGMA foreign_keys]), so any [user_id] is stored. *)
Definition insert_kic_transaction (uid : Z) (kind : string) (amount : Z)
    (description : string) (rel : option Z) : Sql unit :=
  λ db, let i := next_txn_id db in
        (Returned (),
         {| users := users db;
            users_seq := users_seq db;
            companies := companies db;
            kic_transactions := kic_transactions db ++
              [{| txn_id := i; txn_user_id := uid; transaction_type := kind;
                  txn_amount := amount; txn_description := description;
                  related_id := rel |}];
            kic_transactions_seq := i |}).

(** [INSERT INTO users (...) VALUES (...)]: [email] is UNIQUE. *)
Definition email_taken (e : string) (db : Database) : bool :=
  bool_decide (map_Exists (λ _ r, email r = e) (users db)).

Definition insert_user (r : user_row) : Sql unit :=
  λ db, if email_taken (email r) db then (Raised IntegrityError, db)
        else let i := next_user_id db in
             (Returned (),
              {| users := <[i := r]> (users db);
                 users_seq := i;
                 companies := companies db;
                 kic_transactions := kic_transactions db;
                 kic_transactions_seq := kic_transactions_seq db |}).

Definition insert_company (c : company_row) : Sql unit :=
  λ db, (Returned (),
         {| users := users db;
            users_seq := users_seq db;
            companies := companies db ++ [c];
            kic_transactions := kic_transactions db;
            kic_transactions_seq := kic_transactions_seq db |}).

(** [SELECT COUNT( * ) FROM companies] *)
Definition count_companies : Sql Z :=
  λ db, (Returned (Z.of_nat (length (companies db))), db).

(** [db.conn.commit()]: there is one connection, which sees its own
    statements at once; committing changes nothing it can observe. *)
Definition commit : Sql unit := mret ().

(** [cursor.executemany] and the [for] loop over rows to insert. *)
Fixpoint for_each {A} (f : A → Sql unit) (l : list A) : Sql unit :=
  match l with
  | [] => mret ()
  | x :: l' => f x ;; for_each f l'
  end.

(** ** The program *)

(** [Database.seed_enhanced_data] (lines 259-371), restricted to the three
    tables above: nothing when [companies] already has rows. *)
Definition companies_data : list company_row :=
  [ CompanyRow "Dubai Future Foundation" 50000;
    CompanyRow "Mubadala Investment Company" 75000;
    CompanyRow "ADNOC" 60000;
    CompanyRow "Noon" 40000;
    CompanyRow "Emaar Properties" 45000 ].

Definition enhanced_users : list user_row :=
  [ UserRow "ahmed.mansouri@example.com" "Ahmed Al Mansouri" "talent"
      (Some "Tech Innovations LLC") (Some "Abu Dhabi") 1500;
    UserRow "fatima.zaabi@example.com" "Dr. Fatima Al Zaabi" "talent"
      (Some "Analytics Solutions") (Some "Dubai") 2200;
    UserRow "sara.hassan@example.com" "Sara Hassan" "company"
      (Some "Dubai Future Foundation") (Some "Dubai") 5000 ].

(** The sample rows of [kic_transactions]: user, kind, amount, description
    and [related_id], which here names a project or a lab. *)
Definition sample_kic_transactions : list (Z * string * Z * string * option Z) :=
  [ (1, "project_payment", 2500, "Payment for completed robotics project", Some 1);
    (2, "lab_booking", -800, "Paid for AI lab booking using KIC", Some 1);
    (1, "bonus", 500, "Performance bonus for high-rated project delivery", None);
    (2, "talent_fee", 1200, "Received payment for consulting work", Some 2) ].

Definition seed_enhanced_data : Sql unit :=
  n ← count_companies;
  if bool_decide (0 < n) then mret ()
  else
    for_each insert_company companies_data ;;
    for_each insert_user enhanced_users ;;
    for_each (λ '(u, k, a, d, r), insert_kic_transaction u k a d r)
             sample_kic_transactions ;;
    commit.

(** [EnhancedAuthManager.register] (lines 676-689): every new account
    starts with 1000 KIC. *)
Definition register (e n ut org loc : string) : Sql bool :=
  try_except
    (insert_user (UserRow e n ut (Some org) (Some loc) 1000) ;;
     commit ;;
     mret true)
    IntegrityError
    (mret false).

(** [KICManager.transfer_kic] (lines 763-795).  The two INSERTs name four
    columns; [related_id] is not among them and is stored as NULL. *)
Definition transfer_kic (from_user_id to_user_id amount : Z)
    (description : string) : Sql bool :=
  row ← select_kic_balance from_user_id;
  balance ← subscript0 row;
  if bool_decide (amount ≤ balance) then
    update_kic_balance (λ b, b - amount) from_user_id ;;
    update_kic_balance (λ b, b + amount) to_user_id ;;
    insert_kic_transaction from_user_id "sent" (- amount) description None ;;
    insert_kic_transaction to_user_id "received" amount description None ;;
    commit ;;
    mret true
  else mret false.

(** [KICManager.get_kic_balance] (lines 798-801). *)
Definition get_kic_balance (user_id : Z) : Sql Z :=
  row ← select_kic_balance user_id;
  subscript0 row.

(** ** What the ledger is measured by *)

(** The balance of an account, 0 when there is none. *)
Definition balance_of (uid : Z) (db : Database) : Z :=
  default 0 (kic_balance <$> users db !! uid).

Definition has_account (uid : Z) (db : Database) : Prop :=
  is_Some (users db !! uid).

(** The sum of all balances of [users]. *)
Definition sum_balances (m : gmap Z user_row) : Z :=
  map_fold (λ _ r acc, kic_balance r + acc) 0 m.

Definition total_kic (db : Database) : Z := sum_balances (users db).

(** [SELECT SUM(amount) FROM kic_transactions WHERE user_id = ?], the query
    of the wallet page (lines 1620, 1633) without its sign filter. *)
Definition log_sum (uid : Z) (log : list txn_row) : Z :=
  foldr (λ t acc, if decide (txn_user_id t = uid) then txn_amount t + acc else acc)
        0 log.

(** The rows a call has appended to the log. *)
Definition appended (db db' : Database) : list txn_row :=
  drop (length (kic_transactions db)) (kic_transactions db').

(** A sequence of [transfer_kic] calls, each on the state the previous one
    left, whatever its outcome. *)
Record transfer_call := Call {
  call_from : Z;
  call_to : Z;
  call_amount : Z;
  call_description : string
}.

Definition run_call (c : transfer_call) (db : Database) : Database :=
  (transfer_kic (call_from c) (call_to c) (call_amount c) (call_description c) db).2.

Definition run_calls (cs : list transfer_call) (db : Database) : Database :=
  foldl (λ d c, run_call c d) db cs.

(** The spec's scenario: A (key 1) holds 1000, B (key 2) holds 500. *)
Definition scenario_db : Database :=
  {| users := <[1 := UserRow "a@example.com" "A" "talent" None None 1000]>
              (<[2 := UserRow "b@example.com" "B" "talent" None None 500]> ∅);
     users_seq := 2; companies := [];
     kic_transactions := []; kic_transactions_seq := 0 |}.


(** The state the four statements of the [if] branch of [transfer_kic]
    leave, written out. *)
Definition after_transfer (from_user_id to_user_id amount : Z)
    (description : string) (db : Database) : Database :=
  let i := next_txn_id db in
  {| users := alter (set_kic_balance (λ b, b + amount)) to_user_id
                (alter (set_kic_balance (λ b, b - amount)) from_user_id (users db));
     users_seq := users_seq db;
     companies := companies db;
     kic_transactions := kic_transactions db ++
       [ TxnRow i from_user_id "sent" (- amount) description None;
         TxnRow (i + 1) to_user_id "received" amount description None ];
     kic_transactions_seq := i + 1 |}.

(** The spec's second scenario: A holds 100. *)
Definition poor_db : Database :=
  {| users := <[1 := UserRow "a@example.com" "A" "talent" None None 100]>
              (<[2 := UserRow "b@example.com" "B" "talent" None None 500]> ∅);
     users_seq := 2; companies := [];
     kic_transactions := []; kic_transactions_seq := 0 |}.

(** No account is overdrawn. *)
Definition no_overdraft (db : Database) : Prop :=
  map_Forall (λ _ r, 0 ≤ kic_balance r) (users db).

#[global] Instance no_overdraft_dec db : Decision (no_overdraft db).
Proof. unfold no_overdraft. apply _. Defined.

(** ** The queries of the KIC hub page *)

(** [SELECT SUM(amount) FROM kic_transactions WHERE user_id = ? AND
    amount <cmp> 0] with [cursor.fetchone()[0]]: an aggregate always
    yields one row, whose column is NULL when no row of the table
    qualifies. *)
Definition select_sum_amount (keep : Z → bool) (uid : Z) (db : Database) : option Z :=
  match filter (λ t, txn_user_id t = uid ∧ keep (txn_amount t) = true)
               (kic_transactions db) with
  | [] => None
  | rows => Some (foldr Z.add 0 (txn_amount <$> rows))
  end.

(** Python's [x or 0] on an integer or [None]. *)
Definition or_zero (x : option Z) : Z :=
  match x with
  | Some v => if decide (v = 0) then 0 else v
  | None => 0
  end.

(** [show_kic_hub_page] (lines 1618-1634): the two figures of the wallet. *)
Definition total_earned (uid : Z) (db : Database) : Z :=
  or_zero (select_sum_amount (λ a, bool_decide (0 < a)) uid db).

Definition total_spent (uid : Z) (db : Database) : Z :=
  Z.abs (or_zero (select_sum_amount (λ a, bool_decide (a < 0)) uid db)).

(** ** More measures of the ledger *)

(** The sum of the amounts of every row of the log. *)
Definition log_total (log : list txn_row) : Z :=
  foldr Z.add 0 (txn_amount <$> log).

(** The ids of the log grow along it. *)
Fixpoint ids_increasing_from (lo : Z) (log : list txn_row) : Prop :=
  match log with
  | [] => True
  | t :: log' => lo < txn_id t ∧ ids_increasing_from (txn_id t) log'
  end.

(** The same call made [k] times in a row, with the number of calls that
    returned [True]. *)
Fixpoint repeat_transfer (k : nat) (from_user_id to_user_id amount : Z)
    (description : string) (db : Database) : nat * Database :=
  match k with
  | O => (O, db)
  | S k' =>
      let r := transfer_kic from_user_id to_user_id amount description db in
      let rest := repeat_transfer k' from_user_id to_user_id amount description r.2 in
      ((if decide (r.1 = Returned true) then S rest.1 else rest.1), rest.2)
  end.

(** The sum of the amounts of the rows of one user that [keep] selects. *)
Definition kept_sum (keep : Z → bool) (uid : Z) (log : list txn_row) : Z :=
  foldr Z.add 0
    (txn_amount <$> filter (λ t, txn_user_id t = uid ∧ keep (txn_amount t) = true) log).

(** [db'] holds everything [db] holds: the same user rows under the same
    keys, and the old rows of [companies] and of the log, in place. *)
Definition extends (db db' : Database) : Prop :=
  users db ⊆ users db' ∧
  companies db `prefix_of` companies db' ∧
  kic_transactions db `prefix_of` kic_transactions db'.

(** What the UNIQUE constraint on [users.email] stands for: no two keys
    hold the same email. *)
Definition unique_emails (db : Database) : Prop :=
  ∀ i j ri rj, users db !! i = Some ri → users db !! j = Some rj →
               email ri = email rj → i = j.

(** ** Calls that overlap *)



#[global] Instance transfer_call_eq_dec : EqDecision transfer_call.
Proof. solve_decision. Defined.

(** A call in flight: not started, past its test with the answer in hand,
    or over with its outcome. *)
Inductive thread :=
  | Pending (c : transfer_call)
  | Checked (c : transfer_call) (ok : bool)
  | Finished (o : outcome bool).

#[global] Instance thread_eq_dec : EqDecision thread.
Proof. solve_decision. Defined.










(** * Properties *)

(** ** Sums over the tables *)

Section sums.
Implicit Types (m : gmap Z user_row) (log : list txn_row).

Lemma total_kic_fold_comm (z1 z2 : user_row) (y : Z) :
  kic_balance z1 + (kic_balance z2 + y) = kic_balance z2 + (kic_balance z1 + y).
Proof. lia. Qed.

(** An UPDATE of one row moves the total by the change of that row. *)
Lemma sum_balances_alter f k m r :
  m !! k = Some r →
  sum_balances (alter (set_kic_balance f) k m) =
    sum_balances m - kic_balance r + f (kic_balance r).
Proof.
  intros Hk. unfold sum_balances.
  rewrite <- (insert_delete_id m k r Hk) at 1.
  rewrite alter_insert_eq.
  rewrite map_fold_insert_L.
  - rewrite (map_fold_delete_L _ _ k r m
               (λ _ _ z1 z2 y _ _ _, total_kic_fold_comm z1 z2 y) Hk).
    simpl. lia.
  - intros. apply total_kic_fold_comm.
  - apply lookup_delete_eq.
Qed.

(** An UPDATE whose WHERE clause matches no row changes nothing. *)
Lemma alter_missing (g : user_row → user_row) k m :
  m !! k = None → alter g k m = m.
Proof.
  intros Hk. apply map_eq. intros j.
  rewrite lookup_alter. case_decide; [subst; by rewrite Hk | done].
Qed.

Lemma log_sum_app uid log log' :
  log_sum uid (log ++ log') = log_sum uid log + log_sum uid log'.
Proof.
  induction log as [|t log IH]; simpl; [done |].
  case_decide; lia.
Qed.

Lemma max_txn_id_nonneg log : 0 ≤ max_txn_id log.
Proof. induction log; simpl; lia. Qed.

Lemma max_txn_id_app log log' :
  max_txn_id (log ++ log') = Z.max (max_txn_id log) (max_txn_id log').
Proof.
  induction log as [|t log IH]; simpl.
  - pose proof (max_txn_id_nonneg log'). lia.
  - lia.
Qed.

Lemma max_txn_id_bound log t : t ∈ log → txn_id t ≤ max_txn_id log.
Proof.
  induction 1; simpl; lia.
Qed.
End sums.

(** ** The three ways a call of [transfer_kic] ends *)

Section transfer_kic_cases.
Variables (from_user_id to_user_id amount : Z) (description : string).
Variable db : Database.

(** No row for the sender: [fetchone()] is [None] and [None[0]] raises,
    before any statement has written. *)
Lemma transfer_kic_no_sender :
  users db !! from_user_id = None →
  transfer_kic from_user_id to_user_id amount description db =
    (Raised TypeError, db).
Proof.
  intros H. unfold transfer_kic, mbind, Sql_bind, select_kic_balance.
  by rewrite H.
Qed.

(** [balance >= amount] is false: the function returns [False]. *)
Lemma transfer_kic_insufficient r :
  users db !! from_user_id = Some r → kic_balance r < amount →
  transfer_kic from_user_id to_user_id amount description db =
    (Returned false, db).
Proof.
  intros H Hlt. unfold transfer_kic, mbind, Sql_bind, select_kic_balance.
  rewrite H. simpl. unfold mret, Sql_ret.
  rewrite bool_decide_eq_false_2; [done | lia].
Qed.

Lemma transfer_kic_sufficient r :
  users db !! from_user_id = Some r → amount ≤ kic_balance r →
  transfer_kic from_user_id to_user_id amount description db =
    (Returned true,
     after_transfer from_user_id to_user_id amount description db).
Proof.
  intros H Hle. unfold transfer_kic, mbind, Sql_bind, select_kic_balance.
  rewrite H. simpl. unfold mret, Sql_ret.
  rewrite bool_decide_eq_true_2; [|lia].
  unfold after_transfer, commit, mret, Sql_ret, next_txn_id. simpl.
  rewrite max_txn_id_app. simpl.
  rewrite <- app_assoc. simpl.
  pose proof (max_txn_id_nonneg (kic_transactions db)).
  repeat f_equal; lia.
Qed.

(** Every call ends in exactly one of the three ways. *)
Lemma transfer_kic_cases :
  (users db !! from_user_id = None ∧
   transfer_kic from_user_id to_user_id amount description db =
     (Raised TypeError, db)) ∨
  (∃ r, users db !! from_user_id = Some r ∧ kic_balance r < amount ∧
   transfer_kic from_user_id to_user_id amount description db =
     (Returned false, db)) ∨
  (∃ r, users db !! from_user_id = Some r ∧ amount ≤ kic_balance r ∧
   transfer_kic from_user_id to_user_id amount description db =
     (Returned true,
      after_transfer from_user_id to_user_id amount description db)).
Proof.
  destruct (users db !! from_user_id) as [r|] eqn:H.
  - destruct (decide (amount ≤ kic_balance r)).
    + right; right. exists r. split_and!; [done | done |].
      by apply (transfer_kic_sufficient r).
    + right; left. exists r. split_and!; [done | lia |].
      apply (transfer_kic_insufficient r); [done | lia].
  - left. split; [done |]. by apply transfer_kic_no_sender.
Qed.
End transfer_kic_cases.

(** ** The state after a transfer that went through *)

Section after_transfer_facts.
Variables (from_user_id to_user_id amount : Z) (description : string).
Variable db : Database.
Let db' := after_transfer from_user_id to_user_id amount description db.

Lemma after_transfer_lookup uid :
  users db' !! uid =
    set_kic_balance (λ b, b + (if decide (uid = to_user_id) then amount else 0)
                            - (if decide (uid = from_user_id) then amount else 0))
      <$> users db !! uid.
Proof.
  subst db'. unfold after_transfer. simpl.
  rewrite !lookup_alter.
  repeat case_decide; subst; try done;
    destruct (users db !! uid) as [[]|]; simpl; try done;
    unfold set_kic_balance; simpl; do 2 f_equal; lia.
Qed.

Lemma after_transfer_has_account uid :
  has_account uid db' ↔ has_account uid db.
Proof.
  unfold has_account. rewrite after_transfer_lookup.
  by rewrite fmap_is_Some.
Qed.

Lemma after_transfer_balance uid :
  has_account uid db →
  balance_of uid db' =
    balance_of uid db + (if decide (uid = to_user_id) then amount else 0)
                      - (if decide (uid = from_user_id) then amount else 0).
Proof.
  intros [r Hr]. unfold balance_of. rewrite after_transfer_lookup, Hr. done.
Qed.

Lemma after_transfer_log_sum uid :
  log_sum uid (kic_transactions db') =
    log_sum uid (kic_transactions db)
      + (if decide (uid = to_user_id) then amount else 0)
      - (if decide (uid = from_user_id) then amount else 0).
Proof.
  subst db'. unfold after_transfer. simpl.
  rewrite log_sum_app. simpl.
  repeat case_decide; subst; try done; lia.
Qed.

Lemma after_transfer_total r :
  users db !! from_user_id = Some r →
  total_kic db' =
    total_kic db - (if decide (has_account to_user_id db) then 0 else amount).
Proof.
  intros Hr. subst db'. unfold total_kic, after_transfer. simpl.
  set (m1 := alter (set_kic_balance (λ b, b - amount)) from_user_id (users db)).
  assert (sum_balances m1 = sum_balances (users db) - amount) as Hm1.
  { subst m1. rewrite (sum_balances_alter _ _ _ r Hr). lia. }
  destruct (m1 !! to_user_id) as [r'|] eqn:Hto.
  - rewrite (sum_balances_alter _ _ _ r' Hto), Hm1.
    rewrite decide_True; [lia |].
    unfold has_account. subst m1.
    apply (lookup_alter_is_Some (set_kic_balance (λ b, b - amount))
             (users db) from_user_id to_user_id). by rewrite Hto.
  - rewrite alter_missing by done. rewrite Hm1.
    rewrite decide_False; [lia |].
    unfold has_account. subst m1. intros Hs.
    apply (lookup_alter_is_Some (set_kic_balance (λ b, b - amount))
             (users db) from_user_id to_user_id) in Hs.
    rewrite Hto in Hs. by destruct Hs.
Qed.
End after_transfer_facts.

(** ** Sequences of calls *)

Section calls.
Implicit Types (c : transfer_call) (cs : list transfer_call).

(** A call leaves the state as it was, or is a transfer that went
    through from a sender who could pay. *)
Lemma run_call_cases c db :
  run_call c db = db ∨
  ∃ r, users db !! call_from c = Some r ∧ call_amount c ≤ kic_balance r ∧
       run_call c db =
         after_transfer (call_from c) (call_to c) (call_amount c)
                        (call_description c) db.
Proof.
  unfold run_call.
  destruct (transfer_kic_cases (call_from c) (call_to c) (call_amount c)
              (call_description c) db)
    as [[_ ->] | [(r & _ & _ & ->) | (r & Hr & Hle & ->)]]; eauto.
Qed.

Lemma run_call_has_account c db uid :
  has_account uid (run_call c db) ↔ has_account uid db.
Proof.
  destruct (run_call_cases c db) as [-> | (r & _ & _ & ->)]; [done |].
  apply after_transfer_has_account.
Qed.

Lemma run_calls_cons c cs db :
  run_calls (c :: cs) db = run_calls cs (run_call c db).
Proof. reflexivity. Qed.

Lemma run_calls_has_account cs db uid :
  has_account uid (run_calls cs db) ↔ has_account uid db.
Proof.
  revert db. induction cs as [|c cs IH]; intros db; [done |].
  rewrite run_calls_cons, IH. apply run_call_has_account.
Qed.

(** One call moves the balance and the log sum of an account alike. *)
Lemma run_call_balance_minus_log c db uid :
  has_account uid db →
  balance_of uid (run_call c db) - log_sum uid (kic_transactions (run_call c db)) =
  balance_of uid db - log_sum uid (kic_transactions db).
Proof.
  intros Hacc.
  destruct (run_call_cases c db) as [-> | (r & _ & _ & ->)]; [done |].
  rewrite after_transfer_balance by done.
  rewrite after_transfer_log_sum. lia.
Qed.

(** One call whose receiver has an account keeps the total. *)
Lemma run_call_total c db :
  has_account (call_to c) db → total_kic (run_call c db) = total_kic db.
Proof.
  intros Hto.
  destruct (run_call_cases c db) as [-> | (r & Hr & _ & ->)]; [done |].
  rewrite (after_transfer_total _ _ _ _ _ r Hr).
  rewrite decide_True by done. lia.
Qed.

(** One call of a non-negative amount overdraws no account. *)
Lemma run_call_no_overdraft c db :
  0 ≤ call_amount c → no_overdraft db → no_overdraft (run_call c db).
Proof.
  intros Hamt Hnn.
  destruct (run_call_cases c db) as [-> | (r & Hr & Hle & ->)]; [done |].
  intros uid ru. rewrite after_transfer_lookup.
  destruct (users db !! uid) as [ru'|] eqn:Hu; simpl; [|done].
  intros [= <-]. simpl. specialize (Hnn uid ru' Hu). simpl in Hnn.
  repeat case_decide; subst; try lia.
  all: rewrite Hr in Hu; injection Hu as ->; lia.
Qed.
End calls.

(** * The ledger claims *)

(** ** Rejection *)

(** C1, at a concrete input.  The claim has a transfer of a non-positive
    amount rejected with nothing changed.  With A at 1000 and B at 500,
    [transfer_kic(A, B, -600, "x")] passes the test [balance >= amount],
    returns [True], moves 600 from B to A and appends two rows. *)
Lemma transfer_kic_accepts_negative_amount :
  let r := transfer_kic 1 2 (-600) "x" scenario_db in
  -600 ≤ 0 ∧
  r.1 = Returned true ∧
  balance_of 1 scenario_db = 1000 ∧ balance_of 1 r.2 = 1600 ∧
  balance_of 2 scenario_db = 500 ∧ balance_of 2 r.2 = -100 ∧
  length (appended scenario_db r.2) = 2%nat.
Proof. vm_compute. split_and!; congruence. Qed.

(** C1, as amended.  [transfer_kic] turns a call down, with every balance
    and the log as they were, in exactly two cases: the sender has no
    account (the call raises [TypeError]), or the sender holds less than
    [amount] (the call returns [False]).  In every other case it returns
    [True]: the function itself tests neither the sign of [amount], nor
    [from_user_id == to_user_id], nor the receiver's existence. *)
Theorem transfer_kic_rejects_exactly (from_user_id to_user_id amount : Z)
    (description : string) (db : Database) :
  let r := transfer_kic from_user_id to_user_id amount description db in
  (¬ has_account from_user_id db ∧ r = (Raised TypeError, db)) ∨
  (has_account from_user_id db ∧ balance_of from_user_id db < amount ∧
   r = (Returned false, db)) ∨
  (has_account from_user_id db ∧ amount ≤ balance_of from_user_id db ∧
   r.1 = Returned true).
Proof.
  unfold has_account, balance_of. simpl.
  destruct (transfer_kic_cases from_user_id to_user_id amount description db)
    as [[Hn ->] | [(r & Hr & Hlt & ->) | (r & Hr & Hle & ->)]].
  - left. rewrite Hn. split; [by intros [? ?] | done].
  - right; left. rewrite Hr. eauto.
  - right; right. rewrite Hr. eauto.
Qed.

(** C2.  When the sender holds less than [amount], [transfer_kic] returns
    [False] (the value its caller reports as insufficient balance) and the
    connection is as before: both balances unchanged, no row appended. *)
Theorem transfer_kic_insufficient_funds (from_user_id to_user_id amount : Z)
    (description : string) (db : Database) :
  has_account from_user_id db →
  balance_of from_user_id db < amount →
  let r := transfer_kic from_user_id to_user_id amount description db in
  r.1 = Returned false ∧
  r.2 = db ∧
  balance_of from_user_id r.2 = balance_of from_user_id db ∧
  balance_of to_user_id r.2 = balance_of to_user_id db ∧
  appended db r.2 = [].
Proof.
  intros [r Hr] Hlt. unfold balance_of in Hlt. rewrite Hr in Hlt. simpl in Hlt.
  rewrite (transfer_kic_insufficient _ _ _ _ _ r Hr Hlt). simpl.
  split_and!; try done. unfold appended. apply drop_all.
Qed.

(** The spec's scenario: A holds 100 and is asked for 300. *)
Lemma transfer_kic_insufficient_funds_witness :
  let r := transfer_kic 1 2 300 "x" poor_db in
  r.1 = Returned false ∧
  r.2 = poor_db ∧
  balance_of 1 r.2 = balance_of 1 poor_db ∧
  balance_of 2 r.2 = balance_of 2 poor_db ∧
  appended poor_db r.2 = [].
Proof.
  apply (transfer_kic_insufficient_funds 1 2 300 "x" poor_db).
  - eexists. reflexivity.
  - vm_compute. reflexivity.
Defined.

(** ** A transfer that goes through *)

(** C3.  Both accounts exist, they differ, [amount] is positive and the
    sender can pay: the call returns [True], the sender has [amount] less,
    the receiver [amount] more, and exactly two rows are appended to the
    log, a ['sent'] row of [-amount] for the sender and a ['received'] row
    of [+amount] for the receiver. *)
Theorem transfer_kic_moves_amount (from_user_id to_user_id amount : Z)
    (description : string) (db : Database) :
  has_account from_user_id db →
  has_account to_user_id db →
  from_user_id ≠ to_user_id →
  0 < amount →
  amount ≤ balance_of from_user_id db →
  let r := transfer_kic from_user_id to_user_id amount description db in
  r.1 = Returned true ∧
  balance_of from_user_id r.2 = balance_of from_user_id db - amount ∧
  balance_of to_user_id r.2 = balance_of to_user_id db + amount ∧
  ∃ s t, kic_transactions r.2 = kic_transactions db ++ [s; t] ∧
         txn_user_id s = from_user_id ∧ transaction_type s = "sent" ∧
         txn_amount s = - amount ∧
         txn_user_id t = to_user_id ∧ transaction_type t = "received" ∧
         txn_amount t = amount.
Proof.
  intros Hfrom Hto Hne Hpos Hle.
  destruct Hfrom as [r Hr]. pose proof Hle as Hle'.
  unfold balance_of in Hle'. rewrite Hr in Hle'. simpl in Hle'.
  rewrite (transfer_kic_sufficient _ _ _ _ _ r Hr Hle'). simpl.
  split_and!; [done | | |].
  - rewrite after_transfer_balance by by exists r.
    rewrite decide_False, decide_True by done. lia.
  - rewrite after_transfer_balance by done.
    rewrite decide_True, decide_False by done. lia.
  - eexists _, _. split; [reflexivity |]. done.
Qed.

(** The spec's scenario: A at 1000, B at 500, A sends 300. *)
Lemma transfer_kic_moves_amount_witness :
  let r := transfer_kic 1 2 300 "x" scenario_db in
  r.1 = Returned true ∧
  balance_of 1 r.2 = 700 ∧
  balance_of 2 r.2 = 800 ∧
  ∃ s t, kic_transactions r.2 = kic_transactions scenario_db ++ [s; t] ∧
         txn_user_id s = 1 ∧ transaction_type s = "sent" ∧
         txn_amount s = - 300 ∧
         txn_user_id t = 2 ∧ transaction_type t = "received" ∧
         txn_amount t = 300.
Proof.
  apply (transfer_kic_moves_amount 1 2 300 "x" scenario_db).
  - eexists. reflexivity.
  - eexists. reflexivity.
  - discriminate.
  - reflexivity.
  - vm_compute. discriminate.
Defined.

(** C4, at a concrete input.  The claim has the two rows of a transfer
    point at each other through [related_id].  After the transfer of the
    scenario the rows have ids 1 and 2, and [related_id] is NULL in both. *)
Lemma transfer_kic_rows_not_linked :
  let r := transfer_kic 1 2 300 "x" scenario_db in
  r.1 = Returned true ∧
  txn_id <$> appended scenario_db r.2 = [1; 2] ∧
  related_id <$> appended scenario_db r.2 = [None; None].
Proof. vm_compute. done. Qed.

(** C4, as amended.  A transfer that returns [True] appends exactly two
    rows: a ['sent'] row for the sender and, next to it, a ['received'] row
    for the receiver, with opposite amounts, the same description and
    consecutive ids that no earlier row has.  Neither row has a
    [related_id]: the pair is linked by its position only. *)
Theorem transfer_kic_appends_pair (from_user_id to_user_id amount : Z)
    (description : string) (db : Database) :
  (transfer_kic from_user_id to_user_id amount description db).1 = Returned true →
  ∃ i, kic_transactions
         (transfer_kic from_user_id to_user_id amount description db).2 =
       kic_transactions db ++
         [ TxnRow i from_user_id "sent" (- amount) description None;
           TxnRow (i + 1) to_user_id "received" amount description None ] ∧
       ∀ t, t ∈ kic_transactions db → txn_id t < i.
Proof.
  destruct (transfer_kic_cases from_user_id to_user_id amount description db)
    as [[_ ->] | [(r & _ & _ & ->) | (r & Hr & Hle & ->)]]; try discriminate.
  intros _. exists (next_txn_id db). split; [done |].
  intros t Ht. apply max_txn_id_bound in Ht. unfold next_txn_id. lia.
Qed.

Lemma transfer_kic_appends_pair_witness :
  ∃ i, kic_transactions (transfer_kic 1 2 300 "x" scenario_db).2 =
       kic_transactions scenario_db ++
         [ TxnRow i 1 "sent" (- 300) "x" None;
           TxnRow (i + 1) 2 "received" 300 "x" None ] ∧
       ∀ t, t ∈ kic_transactions scenario_db → txn_id t < i.
Proof.
  apply (transfer_kic_appends_pair 1 2 300 "x" scenario_db).
  vm_compute. reflexivity.
Defined.

(** ** The log and the balances *)

(** C5, at two reachable states.  The claim has every balance equal to the
    sum of the account's log rows.  An account registered on a new database
    holds 1000 and has no log row; after seeding, account 1 holds 1500 and
    its log rows sum to 3000. *)
Lemma opening_balance_not_logged :
  let registered := (register "z@example.com" "Z" "talent" "Org" "Dubai" create_tables).2 in
  let seeded := (seed_enhanced_data create_tables).2 in
  (has_account 1 registered ∧
   balance_of 1 registered = 1000 ∧
   log_sum 1 (kic_transactions registered) = 0) ∧
  (has_account 1 seeded ∧
   balance_of 1 seeded = 1500 ∧
   log_sum 1 (kic_transactions seeded) = 3000).
Proof.
  split; (split; [eexists; vm_compute; reflexivity | vm_compute; done]).
Qed.

(** C5, as amended.  For every account, a call of [transfer_kic] changes its
    balance and the sum of its log rows by the same amount: over any
    sequence of calls, balance minus log sum stays what it was. *)
Theorem balance_minus_log_sum_invariant (cs : list transfer_call)
    (db : Database) (uid : Z) :
  has_account uid db →
  balance_of uid (run_calls cs db) - log_sum uid (kic_transactions (run_calls cs db)) =
  balance_of uid db - log_sum uid (kic_transactions db).
Proof.
  revert db. induction cs as [|c cs IH]; intros db Hacc; [done |].
  rewrite run_calls_cons.
  rewrite IH by by apply run_call_has_account.
  by apply run_call_balance_minus_log.
Qed.

Lemma balance_minus_log_sum_invariant_witness :
  let cs := [Call 1 2 300 "x"; Call 2 1 (-50) "y"; Call 2 2 10 "z";
             Call 1 7 25 "w"; Call 9 1 5 "v"; Call 2 1 5000 "u"] in
  let db := (seed_enhanced_data create_tables).2 in
  balance_of 2 (run_calls cs db) - log_sum 2 (kic_transactions (run_calls cs db)) =
  balance_of 2 db - log_sum 2 (kic_transactions db).
Proof.
  apply balance_minus_log_sum_invariant.
  eexists. vm_compute. reflexivity.
Defined.

(** C6, at a concrete input.  The claim has the total of all balances kept
    by any sequence of transfers, whatever the ids.  With A at 1000 and B
    at 500, the single call [transfer_kic(A, 7, 300, "x")], where no account
    7 exists, takes the total from 1500 to 1200. *)
Lemma transfer_to_missing_account_loses_kic :
  total_kic scenario_db = 1500 ∧
  total_kic (run_calls [Call 1 7 300 "x"] scenario_db) = 1200.
Proof. vm_compute. done. Qed.

(** C6, as amended.  For any sequence of [transfer_kic] calls whose
    receivers all have an account, whatever the senders and the amounts,
    the sum of all balances after the sequence equals the sum before. *)
Theorem transfers_conserve_total (cs : list transfer_call) (db : Database) :
  Forall (λ c, has_account (call_to c) db) cs →
  total_kic (run_calls cs db) = total_kic db.
Proof.
  revert db. induction cs as [|c cs IH]; intros db Hall; [done |].
  apply Forall_cons in Hall as [Hc Hcs].
  rewrite run_calls_cons, IH.
  - by apply run_call_total.
  - eapply Forall_impl; [exact Hcs |].
    intros c' Hc'. by apply run_call_has_account.
Qed.

Lemma transfers_conserve_total_witness :
  total_kic (run_calls [Call 1 2 300 "x"; Call 2 1 (-50) "y"; Call 2 2 10 "z";
                        Call 9 1 5 "v"; Call 2 1 5000 "u"] scenario_db) =
  total_kic scenario_db.
Proof.
  apply transfers_conserve_total.
  repeat (apply Forall_cons; split; [eexists; reflexivity |]).
  apply Forall_nil_2.
Defined.

(** C7, at a concrete input.  The claim has no call, negative amounts
    included, take a balance below zero.  With A at 1000 and B at 500,
    [transfer_kic(A, B, -600, "x")] leaves B at -100. *)
Lemma negative_amount_overdraws_receiver :
  no_overdraft scenario_db ∧
  (transfer_kic 1 2 (-600) "x" scenario_db).1 = Returned true ∧
  balance_of 2 (transfer_kic 1 2 (-600) "x" scenario_db).2 = -100 ∧
  ¬ no_overdraft (transfer_kic 1 2 (-600) "x" scenario_db).2.
Proof.
  split_and!.
  - apply (bool_decide_unpack _). vm_compute. exact I.
  - vm_compute. reflexivity.
  - vm_compute. reflexivity.
  - intros H. apply (bool_decide_pack _) in H. vm_compute in H. exact H.
Qed.

(** C7, as amended.  When no balance is negative, no sequence of
    [transfer_kic] calls with amounts of zero or more makes one negative.
    (The wallet form only submits amounts of 1 or more.) *)
Theorem transfers_keep_no_overdraft (cs : list transfer_call) (db : Database) :
  Forall (λ c, 0 ≤ call_amount c) cs →
  no_overdraft db →
  no_overdraft (run_calls cs db).
Proof.
  revert db. induction cs as [|c cs IH]; intros db Hall Hnn; [done |].
  apply Forall_cons in Hall as [Hc Hcs].
  rewrite run_calls_cons. apply IH; [done |].
  by apply run_call_no_overdraft.
Qed.

Lemma transfers_keep_no_overdraft_witness :
  no_overdraft (run_calls [Call 1 2 300 "x"; Call 2 1 800 "y"; Call 2 2 0 "z";
                           Call 1 7 25 "w"; Call 2 1 1 "u"] scenario_db).
Proof.
  apply transfers_keep_no_overdraft.
  - repeat (apply Forall_cons; split; [vm_compute; discriminate |]).
    apply Forall_nil_2.
  - apply (bool_decide_unpack _). vm_compute. exact I.
Defined.

(** ** Reading a balance *)

(** C8, at a concrete input.  The claim has [getBalance] fail with a
    not-found error of its own, not crash, when the account is missing.
    No account 99 exists in the scenario; [get_kic_balance(99)] subscripts
    the [None] that [fetchone()] returned and dies of [TypeError]. *)
Lemma get_kic_balance_missing_account_crashes :
  ¬ has_account 99 scenario_db ∧
  get_kic_balance 99 scenario_db = (Raised TypeError, scenario_db).
Proof.
  split; [| reflexivity].
  intros [r Hr]. vm_compute in Hr. discriminate.
Qed.

(** C8, as amended.  [get_kic_balance] returns the stored balance when the
    account exists; when it does not, the call raises [TypeError] and
    returns no value.  Either way the connection is unchanged. *)
Theorem get_kic_balance_outcome (user_id : Z) (db : Database) :
  get_kic_balance user_id db =
    (match users db !! user_id with
     | Some r => Returned (kic_balance r)
     | None => Raised TypeError
     end, db).
Proof.
  unfold get_kic_balance, mbind, Sql_bind, select_kic_balance.
  by destruct (users db !! user_id).
Qed.

(** ** A receiver that does not exist *)

(** C10.  The sender can pay and no account has the receiver's id: the call
    still returns [True], the sender has [amount] less, every other row of
    [users] is as before, the receiver still has no account, the log is
    the old log followed by a ['sent'] row for the sender and a
    ['received'] row in the missing account's name, and the total of all
    balances is down by [amount]. *)
Theorem transfer_kic_missing_receiver (from_user_id to_user_id amount : Z)
    (description : string) (db : Database) :
  has_account from_user_id db →
  amount ≤ balance_of from_user_id db →
  ¬ has_account to_user_id db →
  let r := transfer_kic from_user_id to_user_id amount description db in
  r.1 = Returned true ∧
  balance_of from_user_id r.2 = balance_of from_user_id db - amount ∧
  (∀ uid, uid ≠ from_user_id → users r.2 !! uid = users db !! uid) ∧
  ¬ has_account to_user_id r.2 ∧
  (∃ i, kic_transactions r.2 =
        kic_transactions db ++
          [ TxnRow i from_user_id "sent" (- amount) description None;
            TxnRow (i + 1) to_user_id "received" amount description None ]) ∧
  total_kic r.2 = total_kic db - amount.
Proof.
  intros Hfrom Hle Hto.
  assert (from_user_id ≠ to_user_id) as Hne by (intros ->; done).
  destruct Hfrom as [r Hr]. pose proof Hle as Hle'.
  unfold balance_of in Hle'. rewrite Hr in Hle'. simpl in Hle'.
  rewrite (transfer_kic_sufficient _ _ _ _ _ r Hr Hle'). cbv zeta. cbn [fst snd].
  split_and!; [done | | | | |].
  - rewrite after_transfer_balance by by exists r.
    rewrite decide_False, decide_True by done. lia.
  - intros uid Hu. rewrite after_transfer_lookup.
    rewrite (decide_False (P := uid = from_user_id)) by done.
    destruct (decide (uid = to_user_id)) as [-> | _].
    + destruct (users db !! to_user_id) eqn:E; [|done].
      exfalso. apply Hto. by eexists.
    + destruct (users db !! uid) as [[]|]; [|done].
      simpl. unfold set_kic_balance. simpl. do 2 f_equal. lia.
  - by rewrite after_transfer_has_account.
  - by eexists.
  - rewrite (after_transfer_total _ _ _ _ _ r Hr).
    by rewrite decide_False.
Qed.

Lemma transfer_kic_missing_receiver_witness :
  let r := transfer_kic 1 7 300 "x" scenario_db in
  r.1 = Returned true ∧
  balance_of 1 r.2 = 700 ∧
  (∀ uid, uid ≠ 1 → users r.2 !! uid = users scenario_db !! uid) ∧
  ¬ has_account 7 r.2 ∧
  (∃ i, kic_transactions r.2 =
        kic_transactions scenario_db ++
          [ TxnRow i 1 "sent" (- 300) "x" None;
            TxnRow (i + 1) 7 "received" 300 "x" None ]) ∧
  total_kic r.2 = 1200.
Proof.
  apply (transfer_kic_missing_receiver 1 7 300 "x" scenario_db).
  - eexists. reflexivity.
  - vm_compute. discriminate.
  - intros [r Hr]. vm_compute in Hr. discriminate.
Defined.


(** * Further properties of the code *)

(** ** AUTOINCREMENT keys and the UNIQUE column *)

Lemma max_key_bound {A} (m : gmap Z A) (k : Z) :
  is_Some (m !! k) → k ≤ max_key m.
Proof.
  unfold max_key. revert k.
  apply (map_fold_weak_ind (λ (r : Z) (m : gmap Z A), ∀ k, is_Some (m !! k) → k ≤ r)).
  - intros k [x Hx]. by rewrite lookup_empty in Hx.
  - intros i x m' r Hi IH k Hk.
    destruct (decide (i = k)) as [-> | Hne]; [lia |].
    rewrite lookup_insert_ne in Hk by done.
    specialize (IH k Hk). lia.
Qed.

Lemma next_user_id_fresh (db : Database) : users db !! next_user_id db = None.
Proof.
  destruct (users db !! next_user_id db) as [r|] eqn:E; [|done].
  pose proof (max_key_bound (users db) (next_user_id db) (mk_is_Some _ _ E)) as H.
  unfold next_user_id in H. lia.
Qed.

Lemma sum_balances_insert_fresh (m : gmap Z user_row) (i : Z) (r : user_row) :
  m !! i = None → sum_balances (<[i := r]> m) = kic_balance r + sum_balances m.
Proof.
  intros Hi. unfold sum_balances.
  rewrite map_fold_insert_L; [done | | done].
  intros. apply total_kic_fold_comm.
Qed.

(** X1.  Registering with an email no user has returns [True] and creates
    one account under a key that was free, holding 1000 KIC, which
    [get_kic_balance] then reads back; every other account and the log are
    as before, and the total of all balances is 1000 higher. *)
Theorem register_new_account (e n ut org loc : string) (db : Database) :
  email_taken e db = false →
  let r := register e n ut org loc db in
  let i := next_user_id db in
  r.1 = Returned true ∧
  ¬ has_account i db ∧
  users r.2 !! i = Some (UserRow e n ut (Some org) (Some loc) 1000) ∧
  (∀ uid, uid ≠ i → users r.2 !! uid = users db !! uid) ∧
  kic_transactions r.2 = kic_transactions db ∧
  total_kic r.2 = total_kic db + 1000 ∧
  get_kic_balance i r.2 = (Returned 1000, r.2).
Proof.
  intros Hfree. cbv zeta.
  pose proof (next_user_id_fresh db) as Hfresh.
  unfold register, try_except, mbind, Sql_bind, insert_user, commit, mret, Sql_ret.
  cbn [email]. rewrite Hfree. cbn [fst snd users kic_transactions].
  split_and!.
  - done.
  - intros [r Hr]. by rewrite Hfresh in Hr.
  - by rewrite lookup_insert_eq.
  - intros uid Hne. by rewrite lookup_insert_ne.
  - done.
  - unfold total_kic. cbn [users].
    rewrite sum_balances_insert_fresh by done. cbn [kic_balance]. lia.
  - unfold get_kic_balance, mbind, Sql_bind, select_kic_balance. cbn [users].
    by rewrite lookup_insert_eq.
Qed.

Lemma register_new_account_witness :
  let db := (seed_enhanced_data create_tables).2 in
  let r := register "new@example.com" "New" "talent" "Org" "Dubai" db in
  r.1 = Returned true ∧
  ¬ has_account 4 db ∧
  users r.2 !! 4 = Some (UserRow "new@example.com" "New" "talent" (Some "Org") (Some "Dubai") 1000) ∧
  (∀ uid, uid ≠ 4 → users r.2 !! uid = users db !! uid) ∧
  kic_transactions r.2 = kic_transactions db ∧
  total_kic r.2 = total_kic db + 1000 ∧
  get_kic_balance 4 r.2 = (Returned 1000, r.2).
Proof.
  apply (register_new_account "new@example.com" "New" "talent" "Org" "Dubai"
           (seed_enhanced_data create_tables).2).
  vm_compute. reflexivity.
Defined.

(** X2.  Registering with an email some user already has returns [False]
    (the [IntegrityError] of the UNIQUE column is caught) and changes
    nothing. *)
Theorem register_taken_email (e n ut org loc : string) (db : Database) :
  email_taken e db = true →
  register e n ut org loc db = (Returned false, db).
Proof.
  intros Htaken.
  unfold register, try_except, mbind, Sql_bind, insert_user. cbn [email].
  rewrite Htaken. by rewrite decide_True.
Qed.

Lemma register_taken_email_witness :
  register "sara.hassan@example.com" "S" "company" "Org" "Dubai"
           (seed_enhanced_data create_tables).2 =
  (Returned false, (seed_enhanced_data create_tables).2).
Proof.
  apply register_taken_email. vm_compute. reflexivity.
Defined.

(** ** What a transfer leaves alone *)

(** The columns of a user row that are not the balance. *)
Lemma after_transfer_other_columns (f t a : Z) (d : string) (db : Database) (uid : Z) :
  (λ r, (email r, name r, user_type r, organization r, location r))
    <$> users (after_transfer f t a d db) !! uid =
  (λ r, (email r, name r, user_type r, organization r, location r))
    <$> users db !! uid.
Proof.
  rewrite after_transfer_lookup. by destruct (users db !! uid).
Qed.

(** X3.  No sequence of [transfer_kic] calls creates or deletes an account
    or touches any column of [users] but [kic_balance]; the key counter of
    [users] and the [companies] table are as before. *)
Theorem transfers_keep_accounts (cs : list transfer_call) (db : Database) :
  (∀ uid,
     (λ r, (email r, name r, user_type r, organization r, location r))
       <$> users (run_calls cs db) !! uid =
     (λ r, (email r, name r, user_type r, organization r, location r))
       <$> users db !! uid) ∧
  users_seq (run_calls cs db) = users_seq db ∧
  companies (run_calls cs db) = companies db.
Proof.
  revert db. induction cs as [|c cs IH]; intros db; [done |].
  rewrite run_calls_cons.
  destruct (IH (run_call c db)) as (IHu & IHs & IHc).
  destruct (run_call_cases c db) as [Heq | (r & _ & _ & Heq)].
  - rewrite Heq in *. done.
  - split_and!.
    + intros uid. rewrite IHu, Heq. apply after_transfer_other_columns.
    + rewrite IHs, Heq. done.
    + rewrite IHc, Heq. done.
Qed.

(** ** The log *)

Lemma run_call_log (c : transfer_call) (db : Database) :
  kic_transactions (run_call c db) = kic_transactions db ∨
  ∃ i, kic_transactions (run_call c db) =
       kic_transactions db ++
         [ TxnRow i (call_from c) "sent" (- call_amount c) (call_description c) None;
           TxnRow (i + 1) (call_to c) "received" (call_amount c) (call_description c) None ] ∧
       i = next_txn_id db.
Proof.
  destruct (run_call_cases c db) as [-> | (r & _ & _ & ->)]; [by left |].
  right. by eexists.
Qed.

Lemma log_total_app (l l' : list txn_row) :
  log_total (l ++ l') = log_total l + log_total l'.
Proof.
  unfold log_total. induction l as [|t l IH]; csimpl; [done | rewrite IH; lia].
Qed.

(** X4.  The log is append-only under [transfer_kic]: after any sequence of
    calls the old log is still there, row for row, followed by at most two
    new rows per call. *)
Theorem transfers_append_only (cs : list transfer_call) (db : Database) :
  ∃ new, kic_transactions (run_calls cs db) = kic_transactions db ++ new ∧
         (length new ≤ 2 * length cs)%nat.
Proof.
  revert db. induction cs as [|c cs IH]; intros db.
  - exists []. by rewrite app_nil_r.
  - rewrite run_calls_cons.
    destruct (IH (run_call c db)) as (new & -> & Hlen).
    destruct (run_call_log c db) as [-> | (i & -> & _)].
    + exists new. split; [done | simpl; lia].
    + eexists. rewrite <- app_assoc. split; [reflexivity |].
      rewrite length_app. simpl. lia.
Qed.

(** X5.  The amounts of the whole log add up to the same sum before and
    after any sequence of [transfer_kic] calls: the two rows of a transfer
    cancel, whoever the receiver is. *)
Theorem transfers_keep_log_total (cs : list transfer_call) (db : Database) :
  log_total (kic_transactions (run_calls cs db)) = log_total (kic_transactions db).
Proof.
  revert db. induction cs as [|c cs IH]; intros db; [done |].
  rewrite run_calls_cons, IH.
  destruct (run_call_log c db) as [-> | (i & -> & _)]; [done |].
  rewrite log_total_app. unfold log_total at 2. simpl. lia.
Qed.

Lemma ids_increasing_from_weaken (lo lo' : Z) (l : list txn_row) :
  lo' ≤ lo → ids_increasing_from lo l → ids_increasing_from lo' l.
Proof.
  destruct l as [|t l]; simpl; [done |]. intros ? [? ?]. split; [lia | done].
Qed.

Lemma ids_increasing_from_app (lo b : Z) (l l' : list txn_row) :
  ids_increasing_from lo l → lo ≤ b → (∀ t, t ∈ l → txn_id t ≤ b) →
  ids_increasing_from b l' → ids_increasing_from lo (l ++ l').
Proof.
  revert lo. induction l as [|t l IH]; intros lo Hl Hlo Hall Hl'; simpl.
  - by apply (ids_increasing_from_weaken b).
  - destruct Hl as [Ht Hl]. split; [done |].
    apply IH; [done | | | done].
    + apply Hall. by left.
    + intros t' Ht'. apply Hall. by right.
Qed.

Lemma ids_increasing_from_NoDup (lo : Z) (l : list txn_row) :
  ids_increasing_from lo l →
  NoDup (txn_id <$> l) ∧ ∀ t, t ∈ l → lo < txn_id t.
Proof.
  revert lo. induction l as [|t l IH]; intros lo; simpl.
  - intros _. split; [constructor | by intros t Ht; inversion Ht].
  - intros [Ht Hl]. destruct (IH _ Hl) as [Hnd Hgt]. split.
    + constructor; [|done]. intros Hin.
      apply list_elem_of_fmap in Hin as (t' & Heq & Hin).
      specialize (Hgt t' Hin). lia.
    + intros t' Ht'. apply elem_of_cons in Ht' as [-> | Ht']; [done |].
      specialize (Hgt t' Ht'). lia.
Qed.

(** X6.  When the ids of the log are positive and strictly increasing along
    it, they still are after any sequence of [transfer_kic] calls; in
    particular no two rows share an id. *)
Theorem transfers_keep_ids_increasing (cs : list transfer_call) (db : Database) :
  ids_increasing_from 0 (kic_transactions db) →
  ids_increasing_from 0 (kic_transactions (run_calls cs db)) ∧
  NoDup (txn_id <$> kic_transactions (run_calls cs db)).
Proof.
  intros H.
  assert (ids_increasing_from 0 (kic_transactions (run_calls cs db))) as Hinc.
  { revert db H. induction cs as [|c cs IH]; intros db H; [done |].
    rewrite run_calls_cons. apply IH.
    destruct (run_call_log c db) as [-> | (i & -> & ->)]; [done |].
    pose proof (max_txn_id_nonneg (kic_transactions db)).
    apply (ids_increasing_from_app 0 (next_txn_id db - 1)); [done | | |].
    - unfold next_txn_id. lia.
    - intros t Ht. apply max_txn_id_bound in Ht. unfold next_txn_id. lia.
    - simpl. lia. }
  split; [done |]. by apply ids_increasing_from_NoDup in Hinc as [? _].
Qed.

Lemma transfers_keep_ids_increasing_witness :
  let cs := [Call 1 2 300 "x"; Call 2 7 50 "y"; Call 9 1 5 "v"; Call 3 3 0 "z"] in
  let db := (seed_enhanced_data create_tables).2 in
  ids_increasing_from 0 (kic_transactions (run_calls cs db)) ∧
  NoDup (txn_id <$> kic_transactions (run_calls cs db)).
Proof.
  apply transfers_keep_ids_increasing.
  vm_compute. repeat split.
Defined.

(** ** Transfers that move nothing, and transfers undone *)

(** X7.  A transfer to oneself, or of amount zero, that passes the balance
    test is not refused: it returns [True] and appends its ['sent'] and
    ['received'] rows to the log, while the [users] table stays exactly as
    it was. *)
Theorem transfer_kic_moves_nothing (from_user_id to_user_id amount : Z)
    (description : string) (db : Database) :
  from_user_id = to_user_id ∨ amount = 0 →
  has_account from_user_id db →
  amount ≤ balance_of from_user_id db →
  let r := transfer_kic from_user_id to_user_id amount description db in
  r.1 = Returned true ∧
  users r.2 = users db ∧
  ∃ i, kic_transactions r.2 =
       kic_transactions db ++
         [ TxnRow i from_user_id "sent" (- amount) description None;
           TxnRow (i + 1) to_user_id "received" amount description None ].
Proof.
  intros Hcase [r Hr] Hle.
  unfold balance_of in Hle. rewrite Hr in Hle. simpl in Hle.
  rewrite (transfer_kic_sufficient _ _ _ _ _ r Hr Hle). cbv zeta. cbn [fst snd].
  split_and!; [done | |].
  - apply map_eq. intros uid. rewrite after_transfer_lookup.
    destruct (users db !! uid) as [[]|]; [|done].
    simpl. unfold set_kic_balance. simpl. do 2 f_equal.
    destruct Hcase as [-> | ->]; repeat case_decide; lia.
  - by eexists.
Qed.

Lemma transfer_kic_moves_nothing_witness :
  let r := transfer_kic 1 1 400 "x" scenario_db in
  r.1 = Returned true ∧
  users r.2 = users scenario_db ∧
  ∃ i, kic_transactions r.2 =
       kic_transactions scenario_db ++
         [ TxnRow i 1 "sent" (- 400) "x" None;
           TxnRow (i + 1) 1 "received" 400 "x" None ].
Proof.
  apply (transfer_kic_moves_nothing 1 1 400 "x" scenario_db).
  - left. reflexivity.
  - eexists. reflexivity.
  - vm_compute. discriminate.
Defined.

(** X8.  A transfer followed by the same amount sent back, between two
    different accounts of which the second is not overdrawn: both calls
    return [True], every row of [users] is what it was before the first
    call, and the log has four more rows. *)
Theorem transfer_kic_there_and_back (a b amount : Z) (d1 d2 : string)
    (db : Database) :
  has_account a db → has_account b db → a ≠ b →
  amount ≤ balance_of a db →
  0 ≤ balance_of b db →
  let r1 := transfer_kic a b amount d1 db in
  let r2 := transfer_kic b a amount d2 r1.2 in
  r1.1 = Returned true ∧ r2.1 = Returned true ∧
  users r2.2 = users db ∧
  length (kic_transactions r2.2) = (length (kic_transactions db) + 4)%nat.
Proof.
  intros [ra Hra] [rb Hrb] Hne Hle Hb.
  unfold balance_of in Hle, Hb. rewrite Hra in Hle. rewrite Hrb in Hb.
  simpl in Hle, Hb.
  rewrite (transfer_kic_sufficient _ _ _ _ _ ra Hra Hle). cbv zeta. cbn [fst snd].
  assert (users (after_transfer a b amount d1 db) !! b =
          Some (set_kic_balance (λ x, x + amount - 0) rb)) as Hb1.
  { rewrite after_transfer_lookup, Hrb.
    rewrite decide_True by done. rewrite decide_False by congruence. done. }
  rewrite (transfer_kic_sufficient _ _ _ _ _ _ Hb1) by (simpl; lia).
  cbn [fst snd].
  split_and!; [done | done | |].
  - apply map_eq. intros uid. rewrite !after_transfer_lookup.
    destruct (users db !! uid) as [[]|]; [|done].
    simpl. unfold set_kic_balance. simpl. do 2 f_equal.
    repeat case_decide; lia.
  - unfold after_transfer. simpl. rewrite !length_app. simpl. lia.
Qed.

Lemma transfer_kic_there_and_back_witness :
  let r1 := transfer_kic 1 2 300 "x" scenario_db in
  let r2 := transfer_kic 2 1 300 "y" r1.2 in
  r1.1 = Returned true ∧ r2.1 = Returned true ∧
  users r2.2 = users scenario_db ∧
  length (kic_transactions r2.2) = (length (kic_transactions scenario_db) + 4)%nat.
Proof.
  apply (transfer_kic_there_and_back 1 2 300 "x" "y" scenario_db).
  - eexists. reflexivity.
  - eexists. reflexivity.
  - discriminate.
  - vm_compute. discriminate.
  - vm_compute. discriminate.
Defined.

(** ** The figures of the wallet *)

Section wallet.
Variables (keep : Z → bool) (uid : Z).

Lemma kept_sum_cons (t : txn_row) (log : list txn_row) :
  kept_sum keep uid (t :: log) =
    (if decide (txn_user_id t = uid)
     then if keep (txn_amount t) then txn_amount t else 0
     else 0) + kept_sum keep uid log.
Proof.
  unfold kept_sum. rewrite filter_cons.
  destruct (decide (txn_user_id t = uid)) as [Hu | Hu];
    destruct (keep (txn_amount t)) eqn:Hk.
  - rewrite decide_True by done. csimpl. lia.
  - rewrite decide_False by (intros [_ ?]; congruence). lia.
  - rewrite decide_False by (intros [? _]; congruence). lia.
  - rewrite decide_False by (intros [? _]; congruence). lia.
Qed.

Lemma kept_sum_app (l l' : list txn_row) :
  kept_sum keep uid (l ++ l') = kept_sum keep uid l + kept_sum keep uid l'.
Proof.
  induction l as [|t l IH]; [done |].
  rewrite <- app_comm_cons, !kept_sum_cons, IH. lia.
Qed.

Lemma or_zero_select_sum_amount (db : Database) :
  or_zero (select_sum_amount keep uid db) = kept_sum keep uid (kic_transactions db).
Proof.
  unfold select_sum_amount, kept_sum.
  destruct (filter _ (kic_transactions db)) as [|t rows]; [done |].
  unfold or_zero. case_decide; congruence.
Qed.
End wallet.

Lemma kept_sum_positive_nonneg (uid : Z) (log : list txn_row) :
  0 ≤ kept_sum (λ a, bool_decide (0 < a)) uid log.
Proof.
  induction log as [|t log IH]; [done |].
  rewrite kept_sum_cons. case_decide; [case_bool_decide |]; lia.
Qed.

Lemma kept_sum_negative_nonpos (uid : Z) (log : list txn_row) :
  kept_sum (λ a, bool_decide (a < 0)) uid log ≤ 0.
Proof.
  induction log as [|t log IH]; [done |].
  rewrite kept_sum_cons. case_decide; [case_bool_decide |]; lia.
Qed.

Lemma total_earned_kept_sum (uid : Z) (db : Database) :
  total_earned uid db = kept_sum (λ a, bool_decide (0 < a)) uid (kic_transactions db).
Proof. unfold total_earned. apply or_zero_select_sum_amount. Qed.

Lemma total_spent_kept_sum (uid : Z) (db : Database) :
  total_spent uid db = - kept_sum (λ a, bool_decide (a < 0)) uid (kic_transactions db).
Proof.
  unfold total_spent. rewrite or_zero_select_sum_amount.
  pose proof (kept_sum_negative_nonpos uid (kic_transactions db)). lia.
Qed.

(** X9.  The two figures of the wallet are never negative, and "earned"
    minus "spent" is the sum of all log rows of the user. *)
Theorem wallet_figures_reconcile (uid : Z) (db : Database) :
  0 ≤ total_earned uid db ∧
  0 ≤ total_spent uid db ∧
  total_earned uid db - total_spent uid db = log_sum uid (kic_transactions db).
Proof.
  rewrite total_earned_kept_sum, total_spent_kept_sum.
  pose proof (kept_sum_positive_nonneg uid (kic_transactions db)).
  pose proof (kept_sum_negative_nonpos uid (kic_transactions db)).
  split_and!; [lia | lia |].
  induction (kic_transactions db) as [|t log IH]; [done |].
  rewrite !kept_sum_cons. simpl.
  pose proof (kept_sum_positive_nonneg uid log).
  pose proof (kept_sum_negative_nonpos uid log).
  specialize (IH ltac:(done) ltac:(done)).
  case_decide; repeat case_bool_decide; lia.
Qed.

(** X10.  A transfer of a positive amount that goes through adds the amount
    to the sender's "spent" and to the receiver's "earned", and changes no
    other figure of any wallet. *)
Theorem transfer_kic_wallet_figures (from_user_id to_user_id amount : Z)
    (description : string) (db : Database) :
  has_account from_user_id db →
  0 < amount →
  amount ≤ balance_of from_user_id db →
  let r := transfer_kic from_user_id to_user_id amount description db in
  r.1 = Returned true ∧
  total_spent from_user_id r.2 = total_spent from_user_id db + amount ∧
  total_earned to_user_id r.2 = total_earned to_user_id db + amount ∧
  (∀ uid, uid ≠ from_user_id → total_spent uid r.2 = total_spent uid db) ∧
  (∀ uid, uid ≠ to_user_id → total_earned uid r.2 = total_earned uid db).
Proof.
  intros [r Hr] Hpos Hle.
  unfold balance_of in Hle. rewrite Hr in Hle. simpl in Hle.
  rewrite (transfer_kic_sufficient _ _ _ _ _ r Hr Hle). cbv zeta. cbn [fst snd].
  assert (∀ uid,
    total_spent uid (after_transfer from_user_id to_user_id amount description db) =
      total_spent uid db + (if decide (uid = from_user_id) then amount else 0) ∧
    total_earned uid (after_transfer from_user_id to_user_id amount description db) =
      total_earned uid db + (if decide (uid = to_user_id) then amount else 0)) as H.
  { intros uid. rewrite !total_spent_kept_sum, !total_earned_kept_sum.
    unfold after_transfer. cbn [kic_transactions].
    rewrite !kept_sum_app, !kept_sum_cons. cbn [txn_user_id txn_amount].
    change (kept_sum _ uid []) with 0.
    repeat case_decide; repeat case_bool_decide; subst; try done; lia. }
  split_and!; [done | | | |].
  - destruct (H from_user_id) as [-> _]. by rewrite decide_True.
  - destruct (H to_user_id) as [_ ->]. by rewrite decide_True.
  - intros uid Hne. destruct (H uid) as [-> _]. rewrite decide_False by done. lia.
  - intros uid Hne. destruct (H uid) as [_ ->]. rewrite decide_False by done. lia.
Qed.

Lemma transfer_kic_wallet_figures_witness :
  let db := (seed_enhanced_data create_tables).2 in
  let r := transfer_kic 2 1 300 "x" db in
  r.1 = Returned true ∧
  total_spent 2 r.2 = total_spent 2 db + 300 ∧
  total_earned 1 r.2 = total_earned 1 db + 300 ∧
  (∀ uid, uid ≠ 2 → total_spent uid r.2 = total_spent uid db) ∧
  (∀ uid, uid ≠ 1 → total_earned uid r.2 = total_earned uid db).
Proof.
  apply (transfer_kic_wallet_figures 2 1 300 "x" (seed_enhanced_data create_tables).2).
  - eexists. vm_compute. reflexivity.
  - reflexivity.
  - vm_compute. discriminate.
Defined.

(** ** The same transfer, again and again *)

(** X11.  When the same transfer of a positive amount between two different
    existing accounts is made [k] times in a row, the number of calls that
    return [True] is [k] or the number of times the amount fits into the
    sender's balance, whichever is less; the sender is debited and the
    receiver credited that many times the amount.  So 100 calls of 1 from
    an account holding 50 succeed 50 times and leave it at 0. *)
Theorem repeat_transfer_drains (k : nat) (from_user_id to_user_id amount : Z)
    (description : string) (db : Database) :
  has_account from_user_id db →
  has_account to_user_id db →
  from_user_id ≠ to_user_id →
  0 < amount →
  let r := repeat_transfer k from_user_id to_user_id amount description db in
  let n := Z.max 0 (Z.min (Z.of_nat k) (balance_of from_user_id db / amount)) in
  Z.of_nat r.1 = n ∧
  balance_of from_user_id r.2 = balance_of from_user_id db - n * amount ∧
  balance_of to_user_id r.2 = balance_of to_user_id db + n * amount.
Proof.
  intros Hfrom Hto Hne Hpos. cbv zeta.
  revert db Hfrom Hto. induction k as [|k IH]; intros db Hfrom Hto.
  - simpl. split_and!; lia.
  - cbn [repeat_transfer]. cbv zeta. cbn [fst snd].
    destruct (transfer_kic_cases from_user_id to_user_id amount description db)
      as [[Hn _] | [(r & Hr & Hlt & ->) | (r & Hr & Hle & ->)]].
    + destruct Hfrom as [? Hfrom]. congruence.
    + cbn [fst snd]. rewrite decide_False by discriminate.
      destruct (IH db Hfrom Hto) as (-> & -> & ->).
      assert (balance_of from_user_id db = kic_balance r) as ->
        by (unfold balance_of; by rewrite Hr).
      assert (kic_balance r / amount ≤ 0)
        by (apply Z.lt_succ_r, Z.div_lt_upper_bound; lia).
      split_and!; f_equal; lia.
    + cbn [fst snd]. rewrite decide_True by done.
      set (db1 := after_transfer from_user_id to_user_id amount description db).
      assert (has_account from_user_id db1) as Hfrom1
        by by apply after_transfer_has_account.
      assert (has_account to_user_id db1) as Hto1
        by by apply after_transfer_has_account.
      destruct (IH db1 Hfrom1 Hto1) as (Hn & -> & ->).
      rewrite Nat2Z.inj_succ, Hn. subst db1.
      rewrite !after_transfer_balance by done.
      rewrite (decide_False (P := from_user_id = to_user_id)) by done.
      rewrite (decide_True (P := from_user_id = from_user_id)) by done.
      rewrite (decide_True (P := to_user_id = to_user_id)) by done.
      rewrite (decide_False (P := to_user_id = from_user_id)) by congruence.
      assert (balance_of from_user_id db = kic_balance r) as ->
        by (unfold balance_of; by rewrite Hr).
      replace (kic_balance r + 0 - amount) with (kic_balance r + (-1) * amount) by lia.
      rewrite Z.div_add by lia.
      assert (1 ≤ kic_balance r / amount)
        by (apply Z.div_le_lower_bound; lia).
      split_and!; lia.
Qed.

Lemma repeat_transfer_drains_witness :
  let db := {| users := <[1 := UserRow "a@example.com" "A" "talent" None None 50]>
                        (<[2 := UserRow "b@example.com" "B" "talent" None None 500]> ∅);
               users_seq := 2; companies := [];
               kic_transactions := []; kic_transactions_seq := 0 |} in
  let r := repeat_transfer 100 1 2 1 "x" db in
  Z.of_nat r.1 = 50 ∧ balance_of 1 r.2 = 0 ∧ balance_of 2 r.2 = 550.
Proof.
  cbv zeta.
  refine (repeat_transfer_drains 100 1 2 1 "x" _ _ _ _ _).
  - eexists. reflexivity.
  - eexists. reflexivity.
  - discriminate.
  - reflexivity.
Defined.

(** ** Seeding and registration only add *)

Section extends.
Implicit Types (db : Database).

Lemma extends_refl db : extends db db.
Proof. by split_and!. Qed.

Lemma extends_trans db1 db2 db3 :
  extends db1 db2 → extends db2 db3 → extends db1 db3.
Proof.
  intros (? & ? & ?) (? & ? & ?). split_and!; by etrans.
Qed.

Lemma insert_company_extends c db : extends db (insert_company c db).2.
Proof. split_and!; simpl; [done | by apply prefix_app_r | done]. Qed.

Lemma insert_kic_transaction_extends u k a d r db :
  extends db (insert_kic_transaction u k a d r db).2.
Proof. split_and!; simpl; [done | done | by apply prefix_app_r]. Qed.

Lemma insert_user_extends row db : extends db (insert_user row db).2.
Proof.
  unfold insert_user. destruct (email_taken (email row) db); simpl.
  - apply extends_refl.
  - split_and!; simpl; [| done | done].
    apply insert_subseteq, next_user_id_fresh.
Qed.

(** A computation that only adds, followed by one that only adds. *)
Lemma bind_extends {A B} (m : Sql A) (k : A → Sql B) db :
  extends db (m db).2 →
  (∀ a db', extends db' (k a db').2) →
  extends db ((m ≫= k) db).2.
Proof.
  intros Hm Hk. unfold mbind, Sql_bind.
  destruct (m db) as [[a | e] db']; simpl in *; [| done].
  by eapply extends_trans.
Qed.

Lemma for_each_extends {A} (f : A → Sql unit) (l : list A) db :
  (∀ x db', extends db' (f x db').2) → extends db (for_each f l db).2.
Proof.
  intros Hf. revert db. induction l as [|x l IH]; intros db; simpl.
  - apply extends_refl.
  - apply bind_extends; [apply Hf | intros _ db'; apply IH].
Qed.
End extends.

(** X12.  Seeding and registering never change or remove what the database
    holds, whether they succeed or fail: every user row stays under its
    key, and the old rows of [companies] and of the log stay in place. *)
Theorem seed_and_register_only_add (e n ut org loc : string) (db : Database) :
  extends db (seed_enhanced_data db).2 ∧
  extends db (register e n ut org loc db).2.
Proof.
  split.
  - unfold seed_enhanced_data.
    apply bind_extends; [apply extends_refl |].
    intros k db'. case_bool_decide; [apply extends_refl |].
    apply bind_extends.
    { apply for_each_extends. intros; apply insert_company_extends. }
    intros _ db1. apply bind_extends.
    { apply for_each_extends. intros; apply insert_user_extends. }
    intros _ db2. apply bind_extends; [| intros; apply extends_refl].
    apply for_each_extends. intros [[[[u k'] a] d] r] db3.
    apply insert_kic_transaction_extends.
  - unfold register, try_except, mbind, Sql_bind, commit, mret, Sql_ret.
    pose proof (insert_user_extends (UserRow e n ut (Some org) (Some loc) 1000) db) as H.
    destruct (insert_user _ db) as [[[] | ex] db']; simpl in *; [done |].
    case_decide; done.
Qed.

Lemma for_each_insert_user_companies (l : list user_row) (db : Database) :
  companies (for_each insert_user l db).2 = companies db.
Proof.
  revert db. induction l as [|x l IH]; intros db; simpl; [done |].
  unfold mbind, Sql_bind, insert_user.
  destruct (email_taken (email x) db); simpl; [done |].
  by rewrite IH.
Qed.

Lemma for_each_insert_kic_transaction_companies
    (l : list (Z * string * Z * string * option Z)) (db : Database) :
  companies (for_each (λ '(u, k, a, d, r), insert_kic_transaction u k a d r) l db).2 =
  companies db.
Proof.
  revert db. induction l as [|[[[[u k] a] d] r] l IH]; intros db; simpl; [done |].
  unfold mbind, Sql_bind. simpl. by rewrite IH.
Qed.

Lemma for_each_insert_company_companies (l : list company_row) (db : Database) :
  companies (for_each insert_company l db).2 = companies db ++ l.
Proof.
  revert db. induction l as [|x l IH]; intros db; simpl.
  - by rewrite app_nil_r.
  - unfold mbind, Sql_bind. simpl. rewrite IH. simpl. by rewrite <- app_assoc.
Qed.

Lemma bind_companies {A B} (m : Sql A) (k : A → Sql B) (db : Database)
    (cs : list company_row) :
  companies (m db).2 = cs →
  (∀ a db', companies (k a db').2 = companies db') →
  companies ((m ≫= k) db).2 = cs.
Proof.
  intros Hm Hk. unfold mbind, Sql_bind.
  destruct (m db) as [[a | e] db']; simpl in *; [| done].
  by rewrite Hk.
Qed.

Lemma seed_enhanced_data_unfold (db : Database) :
  seed_enhanced_data db =
    if bool_decide (0 < Z.of_nat (length (companies db))) then (Returned (), db)
    else (for_each insert_company companies_data ;;
          for_each insert_user enhanced_users ;;
          for_each (λ '(u, k, a, d, r), insert_kic_transaction u k a d r)
                   sample_kic_transactions ;;
          commit) db.
Proof.
  unfold seed_enhanced_data at 1. unfold mbind at 1. unfold Sql_bind at 1.
  unfold count_companies. by case_bool_decide.
Qed.

Lemma seed_enhanced_data_companies (db : Database) :
  companies db = [] →
  companies (seed_enhanced_data db).2 = companies_data.
Proof.
  intros Hnil. rewrite seed_enhanced_data_unfold, Hnil.
  rewrite bool_decide_eq_false_2 by (simpl; lia).
  apply bind_companies.
  { by rewrite for_each_insert_company_companies, Hnil. }
  intros _ db1. apply bind_companies.
  { apply for_each_insert_user_companies. }
  intros _ db2. apply bind_companies; [| done].
  apply for_each_insert_kic_transaction_companies.
Qed.

(** X13.  Seeding is done once: on a database that a seeding has returned
    from, seeding again returns at once and changes nothing. *)
Theorem seed_enhanced_data_idempotent (db : Database) :
  (seed_enhanced_data db).1 = Returned () →
  seed_enhanced_data (seed_enhanced_data db).2 =
    (Returned (), (seed_enhanced_data db).2).
Proof.
  intros _.
  assert (companies (seed_enhanced_data db).2 ≠ []) as Hne.
  { destruct (companies db) as [|c cs] eqn:Hc.
    - by rewrite seed_enhanced_data_companies.
    - rewrite seed_enhanced_data_unfold, Hc.
      rewrite bool_decide_eq_true_2 by (simpl; lia).
      simpl. by rewrite Hc. }
  rewrite (seed_enhanced_data_unfold (seed_enhanced_data db).2).
  rewrite bool_decide_eq_true_2; [done |].
  destruct (companies (seed_enhanced_data db).2); [done | simpl; lia].
Qed.

Lemma seed_enhanced_data_idempotent_witness :
  seed_enhanced_data (seed_enhanced_data create_tables).2 =
    (Returned (), (seed_enhanced_data create_tables).2).
Proof.
  apply seed_enhanced_data_idempotent. vm_compute. reflexivity.
Defined.

(** ** Transfers create no currency *)

Lemma run_call_total_le (c : transfer_call) (db : Database) :
  0 ≤ call_amount c → total_kic (run_call c db) ≤ total_kic db.
Proof.
  intros Hamt.
  destruct (run_call_cases c db) as [-> | (r & Hr & _ & ->)]; [done |].
  rewrite (after_transfer_total _ _ _ _ _ r Hr). case_decide; lia.
Qed.

(** X14.  Whatever the account ids, a sequence of [transfer_kic] calls with
    amounts of zero or more never raises the total of all balances: KIC
    can be lost to a receiver that does not exist, never made. *)
Theorem transfers_create_no_kic (cs : list transfer_call) (db : Database) :
  Forall (λ c, 0 ≤ call_amount c) cs →
  total_kic (run_calls cs db) ≤ total_kic db.
Proof.
  revert db. induction cs as [|c cs IH]; intros db Hall; [done |].
  apply Forall_cons in Hall as [Hc Hcs].
  rewrite run_calls_cons.
  etrans; [by apply IH | by apply run_call_total_le].
Qed.

Lemma transfers_create_no_kic_witness :
  total_kic (run_calls [Call 1 2 300 "x"; Call 2 7 50 "y"; Call 9 1 5 "v";
                        Call 1 1 0 "z"; Call 2 8 700 "w"] scenario_db)
  ≤ total_kic scenario_db.
Proof.
  apply transfers_create_no_kic.
  repeat (apply Forall_cons; split; [vm_compute; discriminate |]).
  apply Forall_nil_2.
Defined.

(** ** Emails stay unique *)

Lemma email_taken_false (e : string) (db : Database) :
  email_taken e db = false →
  ∀ i r, users db !! i = Some r → email r ≠ e.
Proof.
  unfold email_taken. rewrite bool_decide_eq_false.
  intros Hno i r Hr He. apply Hno. by exists i, r.
Qed.

Lemma insert_user_unique_emails (row : user_row) (db : Database) :
  unique_emails db → unique_emails (insert_user row db).2.
Proof.
  intros Hu. unfold insert_user.
  destruct (email_taken (email row) db) eqn:Ht; [done |].
  pose proof (email_taken_false _ _ Ht) as Hfree.
  intros i j ri rj. simpl.
  rewrite !lookup_insert. repeat case_decide; subst.
  - done.
  - intros [= <-] Hj He. by destruct (Hfree j rj Hj).
  - intros Hi [= <-] He. by destruct (Hfree i ri Hi).
  - apply Hu.
Qed.

(** A step that keeps an invariant of the database, followed by another. *)
Lemma bind_preserves {A B} (P : Database → Prop) (m : Sql A) (k : A → Sql B)
    (db : Database) :
  P (m db).2 → (∀ a db', P db' → P (k a db').2) → P ((m ≫= k) db).2.
Proof.
  intros Hm Hk. unfold mbind, Sql_bind.
  destruct (m db) as [[a | e] db']; simpl in *; [| done].
  by apply Hk.
Qed.

Lemma for_each_preserves {A} (P : Database → Prop) (f : A → Sql unit)
    (l : list A) (db : Database) :
  (∀ x db', P db' → P (f x db').2) → P db → P (for_each f l db).2.
Proof.
  intros Hf. revert db. induction l as [|x l IH]; intros db Hdb; simpl; [done |].
  apply bind_preserves; [by apply Hf | intros _ db'; apply IH].
Qed.

Lemma run_call_unique_emails (c : transfer_call) (db : Database) :
  unique_emails db → unique_emails (run_call c db).
Proof.
  intros Hu.
  destruct (run_call_cases c db) as [-> | (r & _ & _ & ->)]; [done |].
  intros i j ri rj. rewrite !after_transfer_lookup.
  destruct (users db !! i) as [ri0|] eqn:Hi; [|done].
  destruct (users db !! j) as [rj0|] eqn:Hj; [|done].
  simpl. intros [= <-] [= <-]. simpl. by apply Hu.
Qed.

(** X15.  When no two accounts share an email, none do after seeding,
    after a registration with any arguments, or after any sequence of
    transfers. *)
Theorem emails_stay_unique (e n ut org loc : string)
    (cs : list transfer_call) (db : Database) :
  unique_emails db →
  unique_emails (seed_enhanced_data db).2 ∧
  unique_emails (register e n ut org loc db).2 ∧
  unique_emails (run_calls cs db).
Proof.
  intros Hu. split_and!.
  - rewrite seed_enhanced_data_unfold. case_bool_decide; [done |].
    apply bind_preserves.
    { by apply for_each_preserves. }
    intros _ db1 H1. apply bind_preserves.
    { apply for_each_preserves; [| done].
      intros; by apply insert_user_unique_emails. }
    intros _ db2 H2. apply bind_preserves; [| done].
    apply for_each_preserves; [| done]. by intros [[[[u k'] a] d] r] db3.
  - unfold register, try_except, mbind, Sql_bind, commit, mret, Sql_ret.
    pose proof (insert_user_unique_emails
                  (UserRow e n ut (Some org) (Some loc) 1000) db Hu) as H.
    destruct (insert_user _ db) as [[[] | ex] db']; simpl in *; [done |].
    case_decide; done.
  - revert db Hu. induction cs as [|c cs IH]; intros db Hu; [done |].
    rewrite run_calls_cons. by apply IH, run_call_unique_emails.
Qed.

Lemma emails_stay_unique_witness :
  unique_emails (seed_enhanced_data scenario_db).2 ∧
  unique_emails (register "b@example.com" "B2" "talent" "Org" "Dubai" scenario_db).2 ∧
  unique_emails (run_calls [Call 1 2 300 "x"; Call 2 7 50 "y"] scenario_db).
Proof.
  apply emails_stay_unique.
  intros i j ri rj Hi Hj He. unfold scenario_db in Hi, Hj. cbn [users] in Hi, Hj.
  apply lookup_insert_Some in Hi as [[<- <-] | [? Hi]];
    apply lookup_insert_Some in Hj as [[<- <-] | [? Hj]]; try done.
  all: try (apply lookup_insert_Some in Hi as [[<- <-] | [? Hi]]).
  all: try (apply lookup_insert_Some in Hj as [[<- <-] | [? Hj]]).
  all: try done.
  all: try (by rewrite lookup_empty in Hi).
  all: by rewrite lookup_empty in Hj.
Defined.

(** * Calls that overlap *)









